(** * Space-vector PWM pipeline: circle limitation, reverse Park, SVPWM encoder

    Shallow embedding of [circle_limitation.c], [circle_limitation.h],
    [MCM_Rev_Park.c] and [svpwm.c].

    - The fixed-point limiter is modelled over [Z] with every C conversion
      ([int16_t], [int32_t], [uint8_t], [uint32_t]) written out as a
      wrap-around, and C's truncating division as [Z.quot].
    - The S-function code works on [real_T]; it is modelled over the real
      numbers [R] (the statements about it are statements of real
      arithmetic, comparisons are the real comparisons). *)

From Stdlib Require Import ZArith List Bool Lia.
From Stdlib Require Import Reals Lra.
Import ListNotations.

(** ** Machine integers *)

Module CInt.
Local Open Scope Z_scope.

(** Conversion to an unsigned [w]-bit integer. *)
Definition to_unsigned (w : Z) (x : Z) : Z := x mod 2 ^ w.

(** Conversion to a signed two's complement [w]-bit integer. *)
Definition to_signed (w : Z) (x : Z) : Z :=
  (x + 2 ^ (w - 1)) mod 2 ^ w - 2 ^ (w - 1).

Definition to_uint8 := to_unsigned 8.
Definition to_uint16 := to_unsigned 16.
Definition to_uint32 := to_unsigned 32.
Definition to_int16 := to_signed 16.
Definition to_int32 := to_signed 32.

Definition int16_range (x : Z) : Prop := -32768 <= x <= 32767.

End CInt.

(** ** circle_limitation.h / circle_limitation.c *)

Module CircleLimitation.
Import CInt.
Local Open Scope Z_scope.

Definition START_INDEX : Z := 56.
Definition MAX_MODULE : Z := 30800.

(** The 72 initialisers of the macro [MMITABLE]. *)
Definition MMITABLE : list Z :=
  [32607;32293;31988;31691;31546;31261;30984;30714;30451;30322;
   30069;29822;29581;29346;29231;29004;28782;28565;28353;28249;
   28044;27843;27647;27455;27360;27174;26991;26812;26724;26550;
   26380;26213;26049;25968;25808;25652;25498;25347;25272;25125;
   24981;24839;24699;24630;24494;24360;24228;24098;24034;23908;
   23783;23660;23600;23480;23361;23245;23131;23074;22962;22851;
   22742;22635;22582;22477;22373;22271;22170;22120;22021;21924;
   21827;21732].

Record qd_t : Set := mk_qd { q : Z; d : Z }.

Record CircleLimitation_Handle_t : Set := mk_handle {
  MaxModule : Z;                 (* uint16_t *)
  MaxVd : Z;                     (* uint16_t *)
  Circle_limit_table : list Z;   (* uint16_t [87] *)
  Start_index : Z                (* uint8_t *)
}.

(** An array of 87 elements initialised from a shorter brace list: the
    remaining elements are zero. *)
Definition array_init (n : nat) (l : list Z) : list Z :=
  firstn n l ++ repeat 0 (n - length l).

Definition CircleLimitationM1 : CircleLimitation_Handle_t :=
  {| MaxModule := MAX_MODULE;
     MaxVd := to_uint16 (Z.quot (MAX_MODULE * 950) 1000);
     Circle_limit_table := array_init 87 MMITABLE;
     Start_index := START_INDEX |}.

(** [sw_temp = (int32_t)q*q + (int32_t)d*d; uw_temp = (uint32_t)sw_temp]. *)
Definition square_sum (Vqd : qd_t) : Z :=
  let sw_temp :=
    to_int32 (to_int32 (q Vqd * q Vqd) + to_int32 (d Vqd * d Vqd)) in
  to_uint32 sw_temp.

(** [(uint32_t)(pHandle->MaxModule) * pHandle->MaxModule]. *)
Definition square_limit (pHandle : CircleLimitation_Handle_t) : Z :=
  to_uint32 (MaxModule pHandle * MaxModule pHandle).

(** [uw_temp /= 16777216]. *)
Definition bucket (uw_temp : Z) : Z := uw_temp / 16777216.

(** [uw_temp -= Start_index], then the subscript [(uint8_t)uw_temp]. *)
Definition table_index (pHandle : CircleLimitation_Handle_t) (uw_temp : Z) : Z :=
  let uw_temp := bucket uw_temp in
  let uw_temp := to_uint32 (uw_temp - Start_index pHandle) in
  to_uint8 uw_temp.

(** [(int16_t)((v * (int32_t)table_element) / 32768)]. *)
Definition scale (v table_element : Z) : Z :=
  let sw_temp := to_int32 (v * table_element) in
  to_int16 (Z.quot sw_temp 32768).

(** The table variant of [Circle_Limitation] ([CIRCLE_LIMITATION_VD] is not
    defined).  The table read is total here: a subscript past the array
    reads 0; [table_index_in_array] shows the subscript stays inside the 87
    elements for the shipped handle. *)
Definition Circle_Limitation (pHandle : CircleLimitation_Handle_t)
    (Vqd : qd_t) : qd_t :=
  let uw_temp := square_sum Vqd in
  if uw_temp >? square_limit pHandle then
    let table_element :=
      nth (Z.to_nat (table_index pHandle uw_temp))
          (Circle_limit_table pHandle) 0 in
    {| q := scale (q Vqd) table_element;
       d := scale (d Vqd) table_element |}
  else Vqd.

(** Squared magnitude of a vector, as a mathematical integer. *)
Definition norm2 (v : qd_t) : Z := q v * q v + d v * d v.

(** What one table element must satisfy for bucket [56 + i]: it is a
    fraction of 2^15, and it brings the top of the bucket inside the circle,
    [(57 + i) * 2^24 * k^2 / 2^30 <= MAX_MODULE^2]. *)
Definition entry_ok (i : nat) : bool :=
  let k := nth i (Circle_limit_table CircleLimitationM1) 0 in
  (0 <=? k) && (k <=? 32768)
  && ((57 + Z.of_nat i) * (k * k) <=? 64 * (MAX_MODULE * MAX_MODULE)).

(** The explicit initialisers are all above one half. *)
Definition entry_large (i : nat) : bool :=
  16384 <? nth i (Circle_limit_table CircleLimitationM1) 0.

(** A lower check for bucket [56 + i]: after the truncation of both
    products the bottom of the bucket is still at radius 30400 or more,
    [((56 + i) * k^2 - 256 * k) / 64 >= 30400^2]. *)
Definition entry_tight (i : nat) : bool :=
  let k := nth i (Circle_limit_table CircleLimitationM1) 0 in
  64 * (30400 * 30400) <=? (56 + Z.of_nat i) * (k * k) - 256 * k.

End CircleLimitation.

(** ** real_T and the C math library *)

Module RealT.
Local Open Scope R_scope.

(** Comparisons of two [real_T] values, as the booleans C computes. *)
Definition Rleb (x y : R) : bool := if Rle_dec x y then true else false.
Definition Rltb (x y : R) : bool := if Rlt_dec x y then true else false.
Definition Rgeb (x y : R) : bool := Rleb y x.
Definition Rgtb (x y : R) : bool := Rltb y x.

(** [atan2 (y, x)] of <math.h> on real numbers: the principal argument of
    the point [(x, y)], in the interval (-PI, PI], and 0 at the origin. *)
Definition atan2 (y x : R) : R :=
  if Rlt_dec 0 x then atan (y / x)
  else if Rlt_dec x 0 then
    if Rle_dec 0 y then atan (y / x) + PI else atan (y / x) - PI
  else if Rlt_dec 0 y then PI / 2
  else if Rlt_dec y 0 then - PI / 2
  else 0.

End RealT.

(** ** MCM_Rev_Park.c *)

Module MCM_Rev_Park.
Import CInt CircleLimitation RealT.
Local Open Scope R_scope.

(** The two assignments of the reverse Park transform:
    [y[0] = Vq*cos(theta) + Vd*sin(theta); y[1] = -Vq*sin(theta) + Vd*cos(theta)]. *)
Definition Rev_Park (Vq Vd theta : R) : R * R :=
  (Vq * cos theta + Vd * sin theta, - Vq * sin theta + Vd * cos theta).

(** [mdlOutputs]: [Vqd] holds the port values [U(0)] and [U(1)] as stored
    in the two [int16_t] fields, [theta] is [U(2)]; the vector is limited
    and then rotated. *)
Definition mdlOutputs (Vqd : qd_t) (theta : R) : list R :=
  let Vqd := Circle_Limitation CircleLimitationM1 Vqd in
  let y := Rev_Park (IZR (q Vqd)) (IZR (d Vqd)) theta in
  [fst y; snd y].

End MCM_Rev_Park.

(** ** svpwm.c *)

Module svpwm.
Import RealT.
Local Open Scope R_scope.

Definition NUM_CSTATES : nat := 1.

(** What the S-function reads from its [SimStruct]: the two parameters, the
    continuous state vector and the two input ports. *)
Record SimStruct : Type := mk_S {
  Vbus_PARAM : R;
  Ts_PARAM : R;
  ContStates : list R;
  Ui0 : nat -> R;
  Ui1 : nat -> R
}.

(** [mdlInitializeConditions]: the loop stores 0.0 into the first
    [NUM_CSTATES] elements of the state vector. *)
Definition mdlInitializeConditions (S : SimStruct) : SimStruct :=
  {| Vbus_PARAM := Vbus_PARAM S;
     Ts_PARAM := Ts_PARAM S;
     ContStates := repeat 0 NUM_CSTATES ++ skipn NUM_CSTATES (ContStates S);
     Ui0 := Ui0 S;
     Ui1 := Ui1 S |}.

(** The six conditions of the sector [if]/[else if] chain, by sector number. *)
Definition sector_cond (n : Z) (deg : R) : bool :=
  match n with
  | 1%Z => Rgeb deg 0 && Rleb deg 60
  | 2%Z => Rgtb deg 60 && Rleb deg 120
  | 3%Z => Rgtb deg 120 && Rleb deg 180
  | 4%Z => Rltb deg (-120) && Rgtb deg (-180)
  | 5%Z => Rltb deg (-60) && Rgeb deg (-120)
  | 6%Z => Rltb deg 0 && Rgeb deg (-60)
  | _ => false
  end.

(** The chain itself: [Some n] when the branch of sector [n] is taken,
    [None] when control reaches the final [else]. *)
Definition sector_branch (deg : R) : option Z :=
  if sector_cond 1 deg then Some 1%Z
  else if sector_cond 2 deg then Some 2%Z
  else if sector_cond 3 deg then Some 3%Z
  else if sector_cond 4 deg then Some 4%Z
  else if sector_cond 5 deg then Some 5%Z
  else if sector_cond 6 deg then Some 6%Z
  else None.

(** The value left in [sector]; the final [else] assigns 1. *)
Definition compute_sector (deg : R) : Z :=
  match sector_branch deg with
  | Some n => n
  | None => 1%Z
  end.

(** The [switch (sector)] that routes the switch times to the half-bridges;
    the [default] case repeats case 1. *)
Definition gate_select (sector : Z) (ta tb tc td : R) : R * R * R :=
  match sector with
  | 1%Z => (ta, tc, td)
  | 2%Z => (tb, ta, td)
  | 3%Z => (td, ta, tc)
  | 4%Z => (td, tb, ta)
  | 5%Z => (tc, td, ta)
  | 6%Z => (ta, td, tb)
  | _ => (ta, tc, td)
  end.

(** The local variables of [mdlOutputs] after its last assignment. *)
Record Locals : Type := mk_locals {
  ramp : R; Va : R; Vb : R;
  angle : R; deg : R; Mi : R; sector : Z;
  del1 : R; del2 : R; del3 : R;
  T1 : R; T2 : R; Tz : R;
  ta : R; tb : R; tc : R; td : R;
  sine1 : R; sine2 : R; sine3 : R;
  U : R; V : R; W : R
}.

Definition mdlOutputs_locals (S : SimStruct) : Locals :=
  let x := ContStates S in
  let Vbus := Vbus_PARAM S in
  let Ts := Ts_PARAM S in
  let ramp := 4 * nth 0 x 0 in
  let Va := Ui0 S 0%nat / 2 ^ 14 in
  let Vb := Ui0 S 1%nat / 2 ^ 14 in
  let angle := atan2 Vb Va in
  let deg := angle * 180 / PI in
  let Mi := sqrt (Vb * Vb + Va * Va) in
  let sector := compute_sector deg in
  let n := IZR sector in
  let del1 := (2 / sqrt 3) * Mi *
              (cos angle * sin (n * PI / 3) - sin angle * cos (n * PI / 3)) in
  let del2 := (2 / sqrt 3) * Mi *
              (sin angle * cos ((n - 1) * PI / 3)
               - cos angle * sin ((n - 1) * PI / 3)) in
  let del3 := 1 - Rabs del1 - Rabs del2 in
  let T1 := del1 * Ts in
  let T2 := del2 * Ts in
  let Tz := del3 * Ts in
  let td := Tz / 2 in
  let ta := T1 + T2 + td in
  let tb := T1 + td in
  let tc := T2 + td in
  let sines := gate_select sector ta tb tc td in
  let sine1 := fst (fst sines) in
  let sine2 := snd (fst sines) in
  let sine3 := snd sines in
  let U := if Rgtb sine1 ramp then Vbus else 0 in
  let V := if Rgtb sine2 ramp then Vbus else 0 in
  let W := if Rgtb sine3 ramp then Vbus else 0 in
  {| ramp := ramp; Va := Va; Vb := Vb;
     angle := angle; deg := deg; Mi := Mi; sector := sector;
     del1 := del1; del2 := del2; del3 := del3;
     T1 := T1; T2 := T2; Tz := Tz;
     ta := ta; tb := tb; tc := tc; td := td;
     sine1 := sine1; sine2 := sine2; sine3 := sine3;
     U := U; V := V; W := W |}.

(** [mdlOutputs]: the nine elements written to the output port [y]. *)
Definition mdlOutputs (S : SimStruct) : list R :=
  let l := mdlOutputs_locals S in
  [U l; V l; W l; angle l; IZR (sector l); ramp l; T1 l; T2 l; Tz l].

(** [mdlDerivatives]: the derivative vector [dx], one element per state. *)
Definition mdlDerivatives (S : SimStruct) : list R :=
  [Ui1 S 0%nat - 0.500].

(** The angle [a] lies in the 60-degree wedge of sector [n],
    [(n-1)*PI/3 <= a <= n*PI/3], the wedges of sectors 4 to 6 being reached
    by the negative angles of [atan2] one turn later. *)
Definition in_wedge (n : Z) (a : R) : Prop :=
  (IZR n - 1) * PI / 3 <= a <= IZR n * PI / 3 \/
  (IZR n - 1) * PI / 3 <= a + 2 * PI <= IZR n * PI / 3.

(** A sample block: [Vbus] = 24, [Ts] = 1/20000, carrier state at 0, input
    [(Valpha, Vbeta) = (8192, 0)], port 1 at 1. *)
Definition S_example : SimStruct :=
  {| Vbus_PARAM := 24; Ts_PARAM := / 20000; ContStates := [0];
     Ui0 := fun i => match i with O => 8192 | _ => 0 end;
     Ui1 := fun _ => 1 |}.

End svpwm.

(** * Properties of the integer conversions *)

Module CIntFacts.
Import CInt.
Local Open Scope Z_scope.

Lemma to_int32_small (x : Z) :
  -2147483648 <= x <= 2147483647 -> to_int32 x = x.
Proof.
  intros Hx. unfold to_int32, to_signed.
  change (2 ^ (32 - 1)) with 2147483648. change (2 ^ 32) with 4294967296.
  rewrite Z.mod_small; lia.
Qed.

Lemma to_int16_small (x : Z) : int16_range x -> to_int16 x = x.
Proof.
  unfold int16_range, to_int16, to_signed. intros Hx.
  change (2 ^ (16 - 1)) with 32768. change (2 ^ 16) with 65536.
  rewrite Z.mod_small; lia.
Qed.

(** Reading a signed 32-bit value back as unsigned forgets the sign fold. *)
Lemma to_uint32_of_int32 (x : Z) : to_uint32 (to_int32 x) = x mod 2 ^ 32.
Proof.
  unfold to_uint32, to_int32, to_unsigned, to_signed.
  rewrite Zminus_mod_idemp_l. f_equal. lia.
Qed.

Lemma to_uint32_small (x : Z) : 0 <= x < 4294967296 -> to_uint32 x = x.
Proof. intros Hx. unfold to_uint32, to_unsigned. apply Z.mod_small. exact Hx. Qed.

Lemma to_uint8_small (x : Z) : 0 <= x < 256 -> to_uint8 x = x.
Proof. intros Hx. unfold to_uint8, to_unsigned. apply Z.mod_small. exact Hx. Qed.

(** C's [/] on a non-negative dividend. *)
Lemma quot_nonneg_bounds (a : Z) :
  0 <= a -> 32768 * Z.quot a 32768 <= a < 32768 * Z.quot a 32768 + 32768.
Proof.
  intros Ha. pose proof (Z.quot_rem' a 32768) as E.
  pose proof (Z.rem_bound_pos a 32768 Ha ltac:(lia)). lia.
Qed.

(** C's [/] on a non-positive dividend: the quotient is rounded up. *)
Lemma quot_nonpos_bounds (a : Z) :
  a <= 0 -> 32768 * Z.quot a 32768 - 32768 < a <= 32768 * Z.quot a 32768.
Proof.
  intros Ha. pose proof (quot_nonneg_bounds (- a) ltac:(lia)) as B.
  rewrite Z.quot_opp_l in B by lia. lia.
Qed.

(** The bucket division, as a pair of inequalities. *)
Lemma div_2_24_bounds (s : Z) :
  16777216 * (s / 16777216) <= s < 16777216 * (s / 16777216) + 16777216.
Proof.
  pose proof (Z.div_mod s 16777216 ltac:(lia)).
  pose proof (Z.mod_pos_bound s 16777216 ltac:(lia)). lia.
Qed.

Lemma square_le_2_30 (x : Z) : int16_range x -> 0 <= x * x <= 1073741824.
Proof. unfold int16_range. intros Hx. nia. Qed.

End CIntFacts.

(** * Properties of the circle limitation *)

Module CircleLimitationFacts.
Import CInt CIntFacts CircleLimitation.
Local Open Scope Z_scope.

(** On 16-bit components the 32-bit sum is the mathematical sum of squares:
    the only wrap, at 2^31, is undone by the conversion to [uint32_t]. *)
Lemma square_sum_norm2 (v : qd_t) :
  int16_range (q v) -> int16_range (d v) -> square_sum v = norm2 v.
Proof.
  intros Hq Hd. unfold square_sum, norm2.
  pose proof (square_le_2_30 _ Hq) as Bq. pose proof (square_le_2_30 _ Hd) as Bd.
  rewrite (to_int32_small (q v * q v)) by lia.
  rewrite (to_int32_small (d v * d v)) by lia.
  rewrite to_uint32_of_int32. apply Z.mod_small.
  change (2 ^ 32) with 4294967296. lia.
Qed.

Lemma norm2_le_2_31 (v : qd_t) :
  int16_range (q v) -> int16_range (d v) -> 0 <= norm2 v <= 2147483648.
Proof.
  intros Hq Hd. unfold norm2.
  pose proof (square_le_2_30 _ Hq). pose proof (square_le_2_30 _ Hd). lia.
Qed.

(** Only the vector [(-32768, -32768)] reaches 2^31. *)
Lemma norm2_eq_2_31 (v : qd_t) :
  int16_range (q v) -> int16_range (d v) ->
  norm2 v = 2147483648 -> q v = -32768 /\ d v = -32768.
Proof. unfold int16_range, norm2. intros Hq Hd E. split; nia. Qed.

Lemma square_limit_M1 : square_limit CircleLimitationM1 = 948640000.
Proof. reflexivity. Qed.

Lemma table_index_M1 (s : Z) :
  948640000 < s <= 2147483648 ->
  table_index CircleLimitationM1 s = s / 16777216 - 56
  /\ 0 <= s / 16777216 - 56 <= 72.
Proof.
  intros Hs. unfold table_index, bucket. cbn [Start_index CircleLimitationM1].
  unfold START_INDEX.
  pose proof (div_2_24_bounds s) as D.
  assert (B : 0 <= s / 16777216 - 56 <= 72) by lia.
  rewrite to_uint32_small by lia. rewrite to_uint8_small by lia. auto.
Qed.

(** The subscript never leaves the 87-element array. *)
Lemma table_index_in_array (v : qd_t) :
  int16_range (q v) -> int16_range (d v) ->
  square_sum v > square_limit CircleLimitationM1 ->
  (Z.to_nat (table_index CircleLimitationM1 (square_sum v))
   < length (Circle_limit_table CircleLimitationM1))%nat.
Proof.
  intros Hq Hd H. rewrite square_sum_norm2 in * by assumption.
  rewrite square_limit_M1 in H. pose proof (norm2_le_2_31 v Hq Hd) as B.
  destruct (table_index_M1 (norm2 v)) as [-> Hi]; [lia|].
  change (length (Circle_limit_table CircleLimitationM1)) with 87%nat. lia.
Qed.

Lemma forallb_seq (P : nat -> bool) (n i : nat) :
  forallb P (seq 0 n) = true -> (i < n)%nat -> P i = true.
Proof.
  intros H Hi. rewrite forallb_forall in H. apply H. apply in_seq. lia.
Qed.

Lemma entries_ok (i : nat) : (i <= 72)%nat -> entry_ok i = true.
Proof.
  intros Hi. apply (forallb_seq entry_ok 73); [vm_compute; reflexivity | lia].
Qed.

Lemma entries_large (i : nat) : (i <= 71)%nat -> entry_large i = true.
Proof.
  intros Hi. apply (forallb_seq entry_large 72); [vm_compute; reflexivity | lia].
Qed.

(** With a table element that is a fraction of 2^15, [scale] is the
    truncated product and stays a 16-bit value. *)
Lemma scale_quot (v k : Z) :
  int16_range v -> 0 <= k <= 32768 ->
  scale v k = Z.quot (v * k) 32768 /\ int16_range (scale v k).
Proof.
  unfold int16_range. intros Hv Hk. unfold scale.
  rewrite to_int32_small by nia.
  assert (R : int16_range (Z.quot (v * k) 32768)).
  { unfold int16_range. destruct (Z_le_gt_dec 0 v) as [Hp | Hn].
    - pose proof (quot_nonneg_bounds (v * k) ltac:(nia)). nia.
    - pose proof (quot_nonpos_bounds (v * k) ltac:(nia)). nia. }
  rewrite to_int16_small by exact R. split; [reflexivity | exact R].
Qed.

(** Truncation never lengthens a component:
    [(v*k / 32768)^2 * 2^30 <= v^2 * k^2]. *)
Lemma quot_square_le (a : Z) :
  1073741824 * (Z.quot a 32768 * Z.quot a 32768) <= a * a.
Proof.
  set (t := Z.quot a 32768).
  replace (1073741824 * (t * t)) with ((32768 * t) * (32768 * t)) by ring.
  destruct (Z_le_gt_dec 0 a) as [Hp | Hn].
  - pose proof (quot_nonneg_bounds a Hp) as B. fold t in B.
    apply Z.mul_le_mono_nonneg; lia.
  - pose proof (quot_nonpos_bounds a ltac:(lia)) as B. fold t in B.
    replace (a * a) with ((- a) * (- a)) by ring.
    replace ((32768 * t) * (32768 * t)) with ((- (32768 * t)) * (- (32768 * t)))
      by ring.
    apply Z.mul_le_mono_nonneg; lia.
Qed.

End CircleLimitationFacts.

Module CircleLimitationSpec.
Import CInt CIntFacts CircleLimitation CircleLimitationFacts.
Local Open Scope Z_scope.

Local Abbreviation limit := (Circle_Limitation CircleLimitationM1).

(** The test that guards the limiting branch compares the mathematical
    squared magnitude with 30800^2. *)
Lemma limit_test (v : qd_t) :
  int16_range (q v) -> int16_range (d v) ->
  (square_sum v >? square_limit CircleLimitationM1)
  = (norm2 v >? MAX_MODULE * MAX_MODULE).
Proof.
  intros Hq Hd. rewrite square_sum_norm2 by assumption.
  rewrite square_limit_M1. reflexivity.
Qed.

(** The limiting branch in closed form: outside the circle both components
    are multiplied by the element of bucket [norm2 v / 2^24] and divided by
    2^15 with truncation; no conversion wraps. *)
Lemma limit_outside (v : qd_t) :
  int16_range (q v) -> int16_range (d v) ->
  norm2 v > MAX_MODULE * MAX_MODULE ->
  let i := norm2 v / 16777216 - 56 in
  let k := nth (Z.to_nat i) (Circle_limit_table CircleLimitationM1) 0 in
  0 <= i <= 72 /\
  limit v = {| q := Z.quot (q v * k) 32768; d := Z.quot (d v * k) 32768 |}.
Proof.
  intros Hq Hd Hout i k. unfold MAX_MODULE in Hout.
  pose proof (norm2_le_2_31 v Hq Hd) as B.
  destruct (table_index_M1 (norm2 v)) as [Ei Hi]; [lia|]. fold i in Ei, Hi.
  split; [exact Hi|].
  unfold Circle_Limitation. rewrite square_sum_norm2 by assumption.
  rewrite square_limit_M1.
  destruct (Z.gtb_spec (norm2 v) 948640000) as [_ | Hle]; [|lia].
  rewrite Ei. fold k.
  pose proof (entries_ok (Z.to_nat i) ltac:(lia)) as Hk.
  unfold entry_ok in Hk. fold k in Hk.
  apply andb_prop in Hk. destruct Hk as [Hk _].
  apply andb_prop in Hk. destruct Hk as [Hk0 Hk1].
  apply Z.leb_le in Hk0, Hk1.
  destruct (scale_quot (q v) k Hq ltac:(lia)) as [-> _].
  destruct (scale_quot (d v) k Hd ltac:(lia)) as [-> _].
  reflexivity.
Qed.

(** The subscript is one of the 72 initialisers for every vector outside
    the circle except [(-32768, -32768)]. *)
Lemma bucket_below_2_31 (v : qd_t) :
  int16_range (q v) -> int16_range (d v) ->
  MAX_MODULE * MAX_MODULE < norm2 v < 2147483648 ->
  56 <= bucket (square_sum v) <= 127 /\
  0 <= table_index CircleLimitationM1 (square_sum v) <= 71.
Proof.
  intros Hq Hd Hs. unfold MAX_MODULE in Hs.
  rewrite square_sum_norm2 by assumption. unfold bucket.
  pose proof (div_2_24_bounds (norm2 v)) as D.
  destruct (table_index_M1 (norm2 v)) as [-> _]; lia.
Qed.

(** C1. Every 16-bit vector outside the circle of radius [MAX_MODULE] =
    30800 is returned with a squared magnitude of at most [MAX_MODULE]^2
    (no tolerance is needed), hence strictly shorter than it came in; the
    vector [q = d = 32767] is one instance. *)
Theorem C1_limited_magnitude (v : qd_t) :
  int16_range (q v) -> int16_range (d v) ->
  norm2 v > MAX_MODULE * MAX_MODULE ->
  norm2 (limit v) <= MAX_MODULE * MAX_MODULE /\
  norm2 (limit v) < norm2 v.
Proof.
  intros Hq Hd Hout.
  destruct (limit_outside v Hq Hd Hout) as [Hi E].
  cbv zeta in Hi, E. rewrite E.
  set (i := norm2 v / 16777216 - 56) in *.
  set (k := nth (Z.to_nat i) (Circle_limit_table CircleLimitationM1) 0) in *.
  assert (Hin : norm2 {| q := Z.quot (q v * k) 32768;
                         d := Z.quot (d v * k) 32768 |}
                <= MAX_MODULE * MAX_MODULE).
  { unfold norm2 at 1. cbn [q d].
    pose proof (entries_ok (Z.to_nat i) ltac:(lia)) as Hk.
    unfold entry_ok in Hk. fold k in Hk. rewrite Z2Nat.id in Hk by lia.
    apply andb_prop in Hk. destruct Hk as [_ Hk]. apply Z.leb_le in Hk.
    pose proof (quot_square_le (q v * k)) as Bq.
    pose proof (quot_square_le (d v * k)) as Bd.
    pose proof (div_2_24_bounds (norm2 v)) as D.
    assert (Hs : norm2 v <= 16777216 * (57 + i)) by (unfold i; lia).
    assert (Hkk : 0 <= k * k) by nia.
    pose proof (Z.mul_le_mono_nonneg_r _ _ (k * k) Hkk Hs) as M.
    unfold norm2 in M.
    replace (q v * k * (q v * k)) with (q v * q v * (k * k)) in Bq by ring.
    replace (d v * k * (d v * k)) with (d v * d v * (k * k)) in Bd by ring.
    replace (16777216 * (57 + i) * (k * k))
      with (16777216 * ((57 + i) * (k * k))) in M by ring.
    unfold MAX_MODULE in *. lia. }
  split; [exact Hin | lia].
Qed.

(** C1, the scenario [q = d = 32767]: the output is [(21731, 21731)],
    inside the circle and shorter than the input. *)
Lemma C1_far_outside :
  limit {| q := 32767; d := 32767 |} = {| q := 21731; d := 21731 |} /\
  norm2 (limit {| q := 32767; d := 32767 |}) <= MAX_MODULE * MAX_MODULE /\
  norm2 (limit {| q := 32767; d := 32767 |})
  < norm2 {| q := 32767; d := 32767 |}.
Proof.
  split; [vm_compute; reflexivity|].
  apply (C1_limited_magnitude {| q := 32767; d := 32767 |});
    cbv [int16_range q d norm2 MAX_MODULE]; lia.
Defined.

(** C2. Every 16-bit vector with [q^2 + d^2 <= MAX_MODULE^2], the boundary
    included, is returned unchanged. *)
Theorem C2_inside_unchanged (v : qd_t) :
  int16_range (q v) -> int16_range (d v) ->
  norm2 v <= MAX_MODULE * MAX_MODULE ->
  limit v = v.
Proof.
  intros Hq Hd Hin. unfold Circle_Limitation.
  rewrite limit_test by assumption.
  destruct (Z.gtb_spec (norm2 v) (MAX_MODULE * MAX_MODULE)) as [Hgt | _];
    [lia | reflexivity].
Qed.

(** C2 on the boundary: the vector of magnitude exactly [MAX_MODULE] at
    angle zero. *)
Lemma C2_boundary :
  norm2 {| q := 30800; d := 0 |} = MAX_MODULE * MAX_MODULE /\
  limit {| q := 30800; d := 0 |} = {| q := 30800; d := 0 |}.
Proof.
  split; [reflexivity|].
  apply (C2_inside_unchanged {| q := 30800; d := 0 |});
    cbv [int16_range q d norm2 MAX_MODULE]; lia.
Defined.

(** A truncated product by a non-negative factor lies on the side of zero
    its first factor lies on. *)
Lemma quot_same_side (x k : Z) : 0 <= k -> 0 <= x * Z.quot (x * k) 32768.
Proof.
  intros Hk. destruct (Z_le_gt_dec 0 x) as [Hp | Hn].
  - assert (Hxk : 0 <= x * k) by nia.
    pose proof (quot_nonneg_bounds (x * k) Hxk).
    apply Z.mul_nonneg_nonneg; lia.
  - assert (Hxk : x * k <= 0) by nia.
    pose proof (quot_nonpos_bounds (x * k) Hxk).
    apply Z.mul_nonpos_nonpos; lia.
Qed.

(** Sign of a scaled component when the table element is above one half:
    a component of absolute value 1 is truncated to 0, any other keeps its
    sign. *)
Lemma quot_sign (x k : Z) :
  16384 < k <= 32768 ->
  (Z.abs x = 1 -> Z.quot (x * k) 32768 = 0
                  \/ (k = 32768 /\ Z.quot (x * k) 32768 = x)) /\
  (Z.abs x <> 1 -> Z.sgn (Z.quot (x * k) 32768) = Z.sgn x).
Proof.
  intros Hk. destruct (Z_le_gt_dec 0 x) as [Hp | Hn].
  - pose proof (quot_nonneg_bounds (x * k) ltac:(nia)) as B. split.
    + intros H1. assert (x = 1) by lia. subst x.
      destruct (Z.eq_dec k 32768) as [-> | Hne]; [right | left]; lia.
    + intros H1. destruct (Z.eq_dec x 0) as [-> | Hx0].
      * reflexivity.
      * assert (2 <= x) by lia.
        assert (0 < Z.quot (x * k) 32768) by nia. lia.
  - pose proof (quot_nonpos_bounds (x * k) ltac:(nia)) as B. split.
    + intros H1. assert (x = -1) by lia. subst x.
      destruct (Z.eq_dec k 32768) as [-> | Hne]; [right | left]; lia.
    + intros H1. assert (x <= -2) by lia.
      assert (Z.quot (x * k) 32768 < 0) by nia. lia.
Qed.

(** C5, as stated, fails: the vector [(1, 32767)] lies outside the circle,
    is not zero, and comes back as [(0, 30713)]; the sign of [q] goes from
    1 to 0. *)
Lemma C5_counterexample :
  let v := {| q := 1; d := 32767 |} in
  int16_range (q v) /\ int16_range (d v) /\
  norm2 v > MAX_MODULE * MAX_MODULE /\
  ~ (q v = 0 /\ d v = 0) /\
  limit v = {| q := 0; d := 30713 |} /\
  Z.sgn (q (limit v)) <> Z.sgn (q v).
Proof.
  cbv zeta. repeat split; try (vm_compute; congruence).
  cbn [q d]. intros [H _]. discriminate H.
Qed.

(** C5, amended. For every 16-bit vector with
    [MAX_MODULE^2 < q^2 + d^2 < 2^31], each output component has the sign of
    its input component unless that input component is 1 or -1, in which
    case the output component is 0. *)
Theorem C5_sign_kept (v : qd_t) :
  int16_range (q v) -> int16_range (d v) ->
  MAX_MODULE * MAX_MODULE < norm2 v < 2147483648 ->
  (Z.abs (q v) <> 1 -> Z.sgn (q (limit v)) = Z.sgn (q v)) /\
  (Z.abs (q v) = 1 -> q (limit v) = 0) /\
  (Z.abs (d v) <> 1 -> Z.sgn (d (limit v)) = Z.sgn (d v)) /\
  (Z.abs (d v) = 1 -> d (limit v) = 0).
Proof.
  intros Hq Hd Hs.
  destruct (limit_outside v Hq Hd ltac:(lia)) as [Hi E].
  cbv zeta in Hi, E. rewrite E. cbn [q d].
  set (i := norm2 v / 16777216 - 56) in *.
  set (k := nth (Z.to_nat i) (Circle_limit_table CircleLimitationM1) 0) in *.
  pose proof (div_2_24_bounds (norm2 v)) as D.
  assert (Hi71 : 0 <= i <= 71) by (unfold i; lia).
  pose proof (entries_large (Z.to_nat i) ltac:(lia)) as Hl.
  unfold entry_large in Hl. fold k in Hl. apply Z.ltb_lt in Hl.
  pose proof (entries_ok (Z.to_nat i) ltac:(lia)) as Hk.
  unfold entry_ok in Hk. fold k in Hk.
  apply andb_prop in Hk. destruct Hk as [Hk Hc].
  apply andb_prop in Hk. destruct Hk as [_ Hk1]. apply Z.leb_le in Hk1.
  rewrite Z2Nat.id in Hc by lia. apply Z.leb_le in Hc. unfold MAX_MODULE in Hc.
  assert (Hne : k <> 32768) by nia.
  destruct (quot_sign (q v) k ltac:(lia)) as [Q1 Q2].
  destruct (quot_sign (d v) k ltac:(lia)) as [D1 D2].
  repeat split; auto.
  - intros H. destruct (Q1 H) as [? | [? _]]; [assumption | contradiction].
  - intros H. destruct (D1 H) as [? | [? _]]; [assumption | contradiction].
Qed.

(** C5 amended, at the counterexample's neighbour [(2, 32767)]. *)
Lemma C5_sign_kept_witness :
  let v := {| q := 2; d := 32767 |} in
  (Z.abs (q v) <> 1 -> Z.sgn (q (limit v)) = Z.sgn (q v)) /\
  (Z.abs (q v) = 1 -> q (limit v) = 0) /\
  (Z.abs (d v) <> 1 -> Z.sgn (d (limit v)) = Z.sgn (d v)) /\
  (Z.abs (d v) = 1 -> d (limit v) = 0).
Proof.
  apply (C5_sign_kept {| q := 2; d := 32767 |});
    cbv [int16_range q d norm2 MAX_MODULE]; lia.
Defined.

(** No axis ever flips sign, the vector [(-32768, -32768)] included. *)
Lemma sign_never_flips (v : qd_t) :
  int16_range (q v) -> int16_range (d v) ->
  0 <= q v * q (limit v) /\ 0 <= d v * d (limit v).
Proof.
  intros Hq Hd.
  destruct (Z_le_gt_dec (norm2 v) (MAX_MODULE * MAX_MODULE)) as [Hin | Hout].
  - unfold Circle_Limitation. rewrite limit_test by assumption.
    destruct (Z.gtb_spec (norm2 v) (MAX_MODULE * MAX_MODULE)); [lia|].
    split; nia.
  - destruct (limit_outside v Hq Hd Hout) as [Hi E].
    cbv zeta in Hi, E. rewrite E. cbn [q d].
    set (k := nth _ _ 0) in *.
    pose proof (entries_ok (Z.to_nat (norm2 v / 16777216 - 56)) ltac:(lia)) as Hk.
    unfold entry_ok in Hk. fold k in Hk.
    apply andb_prop in Hk. destruct Hk as [Hk _].
    apply andb_prop in Hk. destruct Hk as [Hk0 _]. apply Z.leb_le in Hk0.
    split; apply quot_same_side; exact Hk0.
Qed.

(** C10 at the vector [(-32768, -32768)]: the sum of squares is 2^31, the
    quotient by 2^24 is 128 and not at most 127, the subscript is 72, one
    past the 72 initialisers, the element read there is the implicit 0, and
    the vector returned is [(0, 0)]. *)
Theorem C10_index_72 :
  let v := {| q := -32768; d := -32768 |} in
  int16_range (q v) /\ int16_range (d v) /\
  norm2 v > MAX_MODULE * MAX_MODULE /\
  square_sum v = 2147483648 /\
  bucket (square_sum v) = 128 /\
  table_index CircleLimitationM1 (square_sum v) = 72 /\
  length MMITABLE = 72%nat /\
  nth 72 (Circle_limit_table CircleLimitationM1) 0 = 0 /\
  limit v = {| q := 0; d := 0 |}.
Proof.
  cbv zeta. repeat split; try (vm_compute; congruence).
Qed.

End CircleLimitationSpec.

(** * Properties of the real-valued helpers *)

Module RealTFacts.
Import RealT.
Local Open Scope R_scope.

Lemma Rleb_true (x y : R) : Rleb x y = true <-> x <= y.
Proof. unfold Rleb. destruct (Rle_dec x y); split; intros; try discriminate; tauto. Qed.

Lemma Rltb_true (x y : R) : Rltb x y = true <-> x < y.
Proof. unfold Rltb. destruct (Rlt_dec x y); split; intros; try discriminate; tauto. Qed.

Lemma Rgeb_true (x y : R) : Rgeb x y = true <-> x >= y.
Proof. unfold Rgeb. rewrite Rleb_true. split; lra. Qed.

Lemma Rgtb_true (x y : R) : Rgtb x y = true <-> x > y.
Proof. unfold Rgtb. rewrite Rltb_true. split; lra. Qed.

(** The boolean of [x > y] selects as the decision of [x > y] does. *)
Lemma gtb_gt_dec (x y a b : R) :
  (if Rgtb x y then a else b) = (if Rgt_dec x y then a else b).
Proof.
  unfold Rgtb, Rltb.
  destruct (Rlt_dec y x) as [H | H], (Rgt_dec x y) as [G | G];
    try reflexivity; unfold Rgt in G; contradiction.
Qed.

(** Turns the hypotheses [Rleb x y = true], ... into the inequalities. *)
Ltac cmp_hyps :=
  repeat match goal with
         | H : Rleb _ _ = true |- _ => apply Rleb_true in H
         | H : Rltb _ _ = true |- _ => apply Rltb_true in H
         | H : Rgeb _ _ = true |- _ => apply Rgeb_true in H
         | H : Rgtb _ _ = true |- _ => apply Rgtb_true in H
         end.


Lemma atan2_0_pos (x : R) : 0 < x -> atan2 0 x = 0.
Proof.
  intros Hx. unfold atan2. destruct (Rlt_dec 0 x) as [_ | N]; [|contradiction].
  unfold Rdiv. rewrite Rmult_0_l. apply atan_0.
Qed.

Lemma two_over_sqrt3_pos : 0 < 2 / sqrt 3.
Proof. apply Rdiv_lt_0_compat; [lra | apply sqrt_lt_R0; lra]. Qed.

(** [sin (a + 2 PI)] and [cos (a + 2 PI)]. *)
Lemma sin_turn (a : R) : sin (a + 2 * PI) = sin a.
Proof. rewrite <- (sin_period a 1). f_equal. simpl. ring. Qed.

Lemma cos_turn (a : R) : cos (a + 2 * PI) = cos a.
Proof. rewrite <- (cos_period a 1). f_equal. simpl. ring. Qed.

End RealTFacts.

(** * Properties of the reverse Park stage *)

Module RevParkSpec.
Import MCM_Rev_Park.
Local Open Scope R_scope.

(** C8. Rotating by [theta] and then rotating the result by [- theta] with
    the same two assignments gives back the vector [(q, d)], for all real
    [q], [d] and [theta]. *)
Theorem C8_rotation_round_trip (q d theta : R) :
  Rev_Park (fst (Rev_Park q d theta)) (snd (Rev_Park q d theta)) (- theta)
  = (q, d).
Proof.
  unfold Rev_Park. cbn [fst snd]. rewrite cos_neg, sin_neg.
  pose proof (sin2_cos2 theta) as H. unfold Rsqr in H.
  set (s := sin theta) in *. set (c := cos theta) in *.
  f_equal.
  - transitivity (q * (s * s + c * c)); [ring | rewrite H; ring].
  - transitivity (d * (s * s + c * c)); [ring | rewrite H; ring].
Qed.

End RevParkSpec.

(** * Properties of the SVPWM encoder *)

Module SvpwmFacts.
Import RealT RealTFacts svpwm.
Local Open Scope R_scope.

(** Only the numbers 1 to 6 have a sector condition. *)
Lemma sector_cond_number (n : Z) (deg : R) :
  sector_cond n deg = true -> (1 <= n <= 6)%Z.
Proof.
  destruct n as [|p|p]; cbn [sector_cond]; try discriminate.
  destruct p as [[[p|p|]|[p|p|]|]|[[p|p|]|[p|p|]|]|];
    try discriminate; intros _; lia.
Qed.

(** The six conditions as intervals of the angle in degrees. *)
Lemma sector_cond_interval (n : Z) (deg : R) :
  sector_cond n deg = true ->
  (n = 1%Z /\ 0 <= deg <= 60) \/ (n = 2%Z /\ 60 < deg <= 120) \/
  (n = 3%Z /\ 120 < deg <= 180) \/ (n = 4%Z /\ -180 < deg < -120) \/
  (n = 5%Z /\ -120 <= deg < -60) \/ (n = 6%Z /\ -60 <= deg < 0).
Proof.
  intros H. pose proof (sector_cond_number n deg H) as Hn.
  assert (C : (n = 1 \/ n = 2 \/ n = 3 \/ n = 4 \/ n = 5 \/ n = 6)%Z) by lia.
  destruct C as [-> | [-> | [-> | [-> | [-> | ->]]]]];
    cbn [sector_cond] in H; apply andb_prop in H; destruct H as [H1 H2];
    cmp_hyps;
    [ left | right; left | do 2 right; left | do 3 right; left
    | do 4 right; left | do 5 right ]; split; try reflexivity; lra.
Qed.

(** The chain returns the number of a condition that holds. *)
Lemma sector_branch_some (deg : R) (n : Z) :
  sector_branch deg = Some n -> sector_cond n deg = true.
Proof.
  unfold sector_branch.
  destruct (sector_cond 1 deg) eqn:C1; [intros [= <-]; exact C1|].
  destruct (sector_cond 2 deg) eqn:C2; [intros [= <-]; exact C2|].
  destruct (sector_cond 3 deg) eqn:C3; [intros [= <-]; exact C3|].
  destruct (sector_cond 4 deg) eqn:C4; [intros [= <-]; exact C4|].
  destruct (sector_cond 5 deg) eqn:C5; [intros [= <-]; exact C5|].
  destruct (sector_cond 6 deg) eqn:C6; [intros [= <-]; exact C6|].
  discriminate.
Qed.

(** The final [else] is reached exactly when all six conditions fail. *)
Lemma sector_branch_none (deg : R) :
  sector_branch deg = None <->
  forall n, sector_cond n deg = false.
Proof.
  unfold sector_branch. split.
  - destruct (sector_cond 1 deg) eqn:C1; [discriminate|].
    destruct (sector_cond 2 deg) eqn:C2; [discriminate|].
    destruct (sector_cond 3 deg) eqn:C3; [discriminate|].
    destruct (sector_cond 4 deg) eqn:C4; [discriminate|].
    destruct (sector_cond 5 deg) eqn:C5; [discriminate|].
    destruct (sector_cond 6 deg) eqn:C6; [discriminate|].
    intros _ n. destruct (sector_cond n deg) eqn:Cn; [|reflexivity].
    pose proof (sector_cond_number n deg Cn) as Hn.
    assert (C : (n = 1 \/ n = 2 \/ n = 3 \/ n = 4 \/ n = 5 \/ n = 6)%Z) by lia.
    destruct C as [-> | [-> | [-> | [-> | [-> | ->]]]]]; congruence.
  - intros H. rewrite !H. reflexivity.
Qed.

(** In the range of [atan2], some condition holds. *)
Lemma sector_cond_exists (deg : R) :
  -180 < deg <= 180 -> exists n, sector_cond n deg = true.
Proof.
  intros Hd.
  destruct (Rle_dec 0 deg) as [H0 | H0].
  - destruct (Rle_dec deg 60) as [H1 | H1].
    + exists 1%Z. cbn [sector_cond]. apply andb_true_intro.
      rewrite Rgeb_true, Rleb_true. lra.
    + destruct (Rle_dec deg 120) as [H2 | H2].
      * exists 2%Z. cbn [sector_cond]. apply andb_true_intro.
        rewrite Rgtb_true, Rleb_true. lra.
      * exists 3%Z. cbn [sector_cond]. apply andb_true_intro.
        rewrite Rgtb_true, Rleb_true. lra.
  - destruct (Rlt_dec deg (-120)) as [H1 | H1].
    + exists 4%Z. cbn [sector_cond]. apply andb_true_intro.
      rewrite Rltb_true, Rgtb_true. lra.
    + destruct (Rlt_dec deg (-60)) as [H2 | H2].
      * exists 5%Z. cbn [sector_cond]. apply andb_true_intro.
        rewrite Rltb_true, Rgeb_true. lra.
      * exists 6%Z. cbn [sector_cond]. apply andb_true_intro.
        rewrite Rltb_true, Rgeb_true. lra.
Qed.

(** Two conditions never hold together. *)
Lemma sector_cond_unique (deg : R) (n m : Z) :
  sector_cond n deg = true -> sector_cond m deg = true -> n = m.
Proof.
  intros Hn Hm.
  apply sector_cond_interval in Hn. apply sector_cond_interval in Hm.
  destruct Hn as [[-> ?] | [[-> ?] | [[-> ?] | [[-> ?] | [[-> ?] | [-> ?]]]]]];
  destruct Hm as [[-> ?] | [[-> ?] | [[-> ?] | [[-> ?] | [[-> ?] | [-> ?]]]]]];
  try reflexivity; exfalso; lra.
Qed.

(** Inside the range of [atan2] the chain takes the branch of a sector
    whose condition holds. *)
Lemma compute_sector_cond (deg : R) :
  -180 < deg <= 180 ->
  sector_branch deg = Some (compute_sector deg) /\
  sector_cond (compute_sector deg) deg = true.
Proof.
  intros Hd. unfold compute_sector.
  destruct (sector_branch deg) as [n|] eqn:B.
  - split; [reflexivity | apply sector_branch_some, B].
  - exfalso. destruct (sector_cond_exists deg Hd) as [n Hn].
    rewrite (proj1 (sector_branch_none deg) B n) in Hn. discriminate.
Qed.

(** Inside the wedge [(n-1) PI/3 <= a <= n PI/3] the two bracketed
    factors of [del1] and [del2] are sines of angles between 0 and PI/3. *)
Lemma wedge_factors_nonneg (n a : R) :
  (n - 1) * PI / 3 <= a <= n * PI / 3 ->
  0 <= cos a * sin (n * PI / 3) - sin a * cos (n * PI / 3) /\
  0 <= sin a * cos ((n - 1) * PI / 3) - cos a * sin ((n - 1) * PI / 3).
Proof.
  intros Ha. pose proof PI_RGT_0 as Hpi. split.
  - replace (cos a * sin (n * PI / 3) - sin a * cos (n * PI / 3))
      with (sin (n * PI / 3 - a)) by (rewrite sin_minus; ring).
    apply sin_ge_0; lra.
  - rewrite <- sin_minus. apply sin_ge_0; lra.
Qed.

(** [del1] and [del2] are non-negative when the angle is in the wedge of
    the sector number used. *)
Lemma del_nonneg_in_wedge (n : Z) (a m : R) :
  0 <= m -> in_wedge n a ->
  0 <= (2 / sqrt 3) * m *
       (cos a * sin (IZR n * PI / 3) - sin a * cos (IZR n * PI / 3)) /\
  0 <= (2 / sqrt 3) * m *
       (sin a * cos ((IZR n - 1) * PI / 3)
        - cos a * sin ((IZR n - 1) * PI / 3)).
Proof.
  intros Hm Hw. pose proof two_over_sqrt3_pos as Hc.
  assert (Hcm : 0 <= 2 / sqrt 3 * m) by (apply Rmult_le_pos; lra).
  assert (F : 0 <= cos a * sin (IZR n * PI / 3) - sin a * cos (IZR n * PI / 3)
              /\ 0 <= sin a * cos ((IZR n - 1) * PI / 3)
                      - cos a * sin ((IZR n - 1) * PI / 3)).
  { destruct Hw as [Hw | Hw].
    - apply wedge_factors_nonneg, Hw.
    - rewrite <- (sin_turn a), <- (cos_turn a).
      apply wedge_factors_nonneg, Hw. }
  destruct F as [F1 F2]. split; apply Rmult_le_pos; assumption.
Qed.


End SvpwmFacts.

Module SvpwmSpec.
Import RealT RealTFacts svpwm SvpwmFacts.
Local Open Scope R_scope.


(** On [S_example] the angle is 0 and the sector is 1. *)
Lemma S_example_sector :
  angle (mdlOutputs_locals S_example) = 0 /\
  sector (mdlOutputs_locals S_example) = 1%Z.
Proof.
  assert (A : angle (mdlOutputs_locals S_example) = 0).
  { unfold mdlOutputs_locals. cbn [angle S_example Ui0].
    replace (0 / 2 ^ 14) with 0 by (unfold Rdiv; ring).
    apply atan2_0_pos. lra. }
  split; [exact A|].
  change (sector (mdlOutputs_locals S_example))
    with (compute_sector (angle (mdlOutputs_locals S_example) * 180 / PI)).
  rewrite A. unfold compute_sector, sector_branch.
  replace (sector_cond 1 (0 * 180 / PI)) with true; [reflexivity|].
  symmetry. cbn [sector_cond]. apply andb_true_intro.
  rewrite Rgeb_true, Rleb_true.
  replace (0 * 180 / PI) with 0 by (unfold Rdiv; ring). lra.
Qed.

(** C3. Whenever the computed angle lies in the wedge of the selected
    sector, [del1] and [del2] are non-negative, [del3] is
    [1 - |del1| - |del2|], and the three dwell times add up to the carrier
    period [Ts] exactly (real arithmetic). *)
Theorem C3_dwell_times_sum (S : SimStruct) :
  let l := mdlOutputs_locals S in
  in_wedge (sector l) (angle l) ->
  0 <= del1 l /\ 0 <= del2 l /\
  del3 l = 1 - Rabs (del1 l) - Rabs (del2 l) /\
  T1 l + T2 l + Tz l = Ts_PARAM S.
Proof.
  intros l Hw.
  assert (Hd : 0 <= del1 l /\ 0 <= del2 l).
  { apply (del_nonneg_in_wedge (sector l) (angle l) (Mi l));
      [apply sqrt_pos | exact Hw]. }
  destruct Hd as [H1 H2].
  split; [exact H1|]. split; [exact H2|]. split; [reflexivity|].
  change (T1 l) with (del1 l * Ts_PARAM S).
  change (T2 l) with (del2 l * Ts_PARAM S).
  change (Tz l) with ((1 - Rabs (del1 l) - Rabs (del2 l)) * Ts_PARAM S).
  rewrite !Rabs_pos_eq by assumption. ring.
Qed.

(** C3 on [S_example]: the angle is 0, the sector is 1. *)
Lemma C3_dwell_times_sum_witness :
  let l := mdlOutputs_locals S_example in
  in_wedge (sector l) (angle l) /\
  T1 l + T2 l + Tz l = / 20000.
Proof.
  intros l.
  assert (Hw : in_wedge (sector l) (angle l)).
  { destruct S_example_sector as [A B]. unfold l. rewrite A, B.
    pose proof PI_RGT_0. left. lra. }
  split; [exact Hw|]. apply (C3_dwell_times_sum S_example). exact Hw.
Defined.

(** C4. For every angle in degrees with [-180 < deg <= 180], exactly one of
    the six sector conditions holds, the chain takes the branch of that
    sector, and the final [else] is not reached. *)
Theorem C4_exactly_one_sector (deg : R) :
  -180 < deg <= 180 ->
  (exists n : Z,
      (1 <= n <= 6)%Z /\ sector_cond n deg = true /\
      (forall m : Z, sector_cond m deg = true -> m = n) /\
      sector_branch deg = Some n) /\
  sector_branch deg <> None.
Proof.
  intros Hd. destruct (compute_sector_cond deg Hd) as [B C].
  split.
  - exists (compute_sector deg). split; [|split; [|split]].
    + apply (sector_cond_number _ deg C).
    + exact C.
    + intros m Hm. apply (sector_cond_unique deg m _ Hm C).
    + exact B.
  - rewrite B. discriminate.
Qed.

Lemma C4_exactly_one_sector_witness :
  (exists n : Z,
      (1 <= n <= 6)%Z /\ sector_cond n 30 = true /\
      (forall m : Z, sector_cond m 30 = true -> m = n) /\
      sector_branch 30 = Some n) /\
  sector_branch 30 <> None.
Proof. apply (C4_exactly_one_sector 30). lra. Defined.

(** C6. Each of the three phase outputs [y[0]], [y[1]], [y[2]] is 0 or is
    the parameter [Vbus], whatever the inputs and the carrier state. *)
Theorem C6_phase_levels (S : SimStruct) :
  let y := mdlOutputs S in
  (nth 0 y 0 = 0 \/ nth 0 y 0 = Vbus_PARAM S) /\
  (nth 1 y 0 = 0 \/ nth 1 y 0 = Vbus_PARAM S) /\
  (nth 2 y 0 = 0 \/ nth 2 y 0 = Vbus_PARAM S).
Proof.
  intros y. subst y. unfold mdlOutputs. cbn [nth].
  set (l := mdlOutputs_locals S).
  change (U l) with (if Rgtb (sine1 l) (ramp l) then Vbus_PARAM S else 0).
  change (V l) with (if Rgtb (sine2 l) (ramp l) then Vbus_PARAM S else 0).
  change (W l) with (if Rgtb (sine3 l) (ramp l) then Vbus_PARAM S else 0).
  destruct (Rgtb (sine1 l) (ramp l)), (Rgtb (sine2 l) (ramp l)),
    (Rgtb (sine3 l) (ramp l)); auto.
Qed.

(** C7. [mdlInitializeConditions] leaves 0 in the carrier state [x[0]],
    and [mdlDerivatives] sets [dx[0]] to the input of port 1 minus 0.5: the
    derivative is the same for every state vector, every input of port 0
    and every parameter value. *)
Theorem C7_carrier_state (S : SimStruct) :
  nth 0 (ContStates (mdlInitializeConditions S)) 0 = 0 /\
  length (mdlDerivatives S) = NUM_CSTATES /\
  nth 0 (mdlDerivatives S) 0 = Ui1 S 0%nat - 1 / 2 /\
  (forall (vbus ts : R) (x : list R) (u0 : nat -> R),
      mdlDerivatives (mk_S vbus ts x u0 (Ui1 S)) = mdlDerivatives S).
Proof.
  split; [reflexivity|]. split; [reflexivity|]. split.
  - unfold mdlDerivatives. cbn [nth]. lra.
  - intros. reflexivity.
Qed.

(** C9. The comparator reference is [4 * x[0]]: it is the value written to
    [y[5]], and each phase output is [Vbus] when the threshold routed to it
    by the sector switch is greater than [4 * x[0]] and 0 otherwise. *)
Theorem C9_scaled_ramp (S : SimStruct) :
  let l := mdlOutputs_locals S in
  let y := mdlOutputs S in
  let r := 4 * nth 0 (ContStates S) 0 in
  (sine1 l, sine2 l, sine3 l)
  = gate_select (sector l) (ta l) (tb l) (tc l) (td l) /\
  nth 5 y 0 = r /\
  nth 0 y 0 = (if Rgt_dec (sine1 l) r then Vbus_PARAM S else 0) /\
  nth 1 y 0 = (if Rgt_dec (sine2 l) r then Vbus_PARAM S else 0) /\
  nth 2 y 0 = (if Rgt_dec (sine3 l) r then Vbus_PARAM S else 0).
Proof.
  intros l y r. split.
  - unfold l, mdlOutputs_locals. cbn [sine1 sine2 sine3 sector ta tb tc td].
    destruct (gate_select _ _ _ _ _) as [[s1 s2] s3]. reflexivity.
  - split; [reflexivity|].
    subst y. unfold mdlOutputs. cbn [nth]. fold l.
    change (U l) with (if Rgtb (sine1 l) r then Vbus_PARAM S else 0).
    change (V l) with (if Rgtb (sine2 l) r then Vbus_PARAM S else 0).
    change (W l) with (if Rgtb (sine3 l) r then Vbus_PARAM S else 0).
    rewrite !gtb_gt_dec. auto.
Qed.

End SvpwmSpec.

(** * Further properties of the circle limitation *)

Module CircleLimitationExtra.
Import CInt CIntFacts CircleLimitation CircleLimitationFacts.
Local Open Scope Z_scope.

Local Abbreviation limit := (Circle_Limitation CircleLimitationM1).

(** The table element selected for a vector outside the circle, with what
    the table checks say about it. *)
Lemma outside_form (v : qd_t) :
  int16_range (q v) -> int16_range (d v) ->
  MAX_MODULE * MAX_MODULE < norm2 v ->
  exists i k : Z,
    i = norm2 v / 16777216 - 56 /\ 0 <= i <= 72 /\
    k = nth (Z.to_nat i) (Circle_limit_table CircleLimitationM1) 0 /\
    0 <= k <= 32768 /\
    (57 + i) * (k * k) <= 64 * (MAX_MODULE * MAX_MODULE) /\
    limit v = {| q := Z.quot (q v * k) 32768; d := Z.quot (d v * k) 32768 |}.
Proof.
  intros Hq Hd Hout. unfold MAX_MODULE in Hout.
  pose proof (norm2_le_2_31 v Hq Hd) as B.
  destruct (table_index_M1 (norm2 v)) as [Ei Hi]; [lia|].
  set (i := norm2 v / 16777216 - 56) in *.
  set (k := nth (Z.to_nat i) (Circle_limit_table CircleLimitationM1) 0).
  pose proof (entries_ok (Z.to_nat i) ltac:(lia)) as Hk.
  unfold entry_ok in Hk. fold k in Hk. rewrite Z2Nat.id in Hk by lia.
  apply andb_prop in Hk. destruct Hk as [Hk Hc].
  apply andb_prop in Hk. destruct Hk as [Hk0 Hk1].
  apply Z.leb_le in Hk0, Hk1, Hc.
  exists i, k. repeat split; try lia.
  unfold Circle_Limitation. rewrite square_sum_norm2 by assumption.
  rewrite square_limit_M1.
  destruct (Z.gtb_spec (norm2 v) 948640000) as [_ | Hle]; [|lia].
  rewrite Ei. fold k.
  destruct (scale_quot (q v) k Hq ltac:(lia)) as [-> _].
  destruct (scale_quot (d v) k Hd ltac:(lia)) as [-> _].
  reflexivity.
Qed.

(** Inside the circle, boundary included, nothing is done. *)
Lemma inside_form (v : qd_t) :
  int16_range (q v) -> int16_range (d v) ->
  norm2 v <= MAX_MODULE * MAX_MODULE -> limit v = v.
Proof.
  intros Hq Hd Hin. unfold Circle_Limitation.
  rewrite square_sum_norm2 by assumption. rewrite square_limit_M1.
  unfold MAX_MODULE in Hin.
  destruct (Z.gtb_spec (norm2 v) 948640000) as [Hgt | _]; [lia | reflexivity].
Qed.


(** Whatever the 16-bit vector, the vector returned is inside the circle. *)
Lemma limit_norm2_le (v : qd_t) :
  int16_range (q v) -> int16_range (d v) ->
  norm2 (limit v) <= MAX_MODULE * MAX_MODULE.
Proof.
  intros Hq Hd.
  destruct (Z_le_gt_dec (norm2 v) (MAX_MODULE * MAX_MODULE)) as [Hin | Hout].
  - rewrite inside_form; assumption.
  - destruct (outside_form v Hq Hd ltac:(lia))
      as (i & k & Ei & Hi & Ek & Hk & Hc & E).
    rewrite E. unfold norm2 at 1. cbn [q d].
    pose proof (quot_square_le (q v * k)) as Bq.
    pose proof (quot_square_le (d v * k)) as Bd.
    pose proof (div_2_24_bounds (norm2 v)) as D.
    assert (Hs : norm2 v <= 16777216 * (57 + i)) by lia.
    assert (Hkk : 0 <= k * k) by nia.
    pose proof (Z.mul_le_mono_nonneg_r _ _ (k * k) Hkk Hs) as M.
    unfold norm2 in M.
    replace (q v * k * (q v * k)) with (q v * q v * (k * k)) in Bq by ring.
    replace (d v * k * (d v * k)) with (d v * d v * (k * k)) in Bd by ring.
    replace (16777216 * (57 + i) * (k * k))
      with (16777216 * ((57 + i) * (k * k))) in M by ring.
    unfold MAX_MODULE in *. lia.
Qed.



(** X2. Limiting is idempotent: a limited vector passes a second call
    unchanged, for every 16-bit vector. *)
Theorem X2_idempotent (v : qd_t) :
  int16_range (q v) -> int16_range (d v) ->
  limit (limit v) = limit v.
Proof.
  intros Hq Hd.
  destruct (Z_le_gt_dec (norm2 v) (MAX_MODULE * MAX_MODULE)) as [Hin | Hout].
  - rewrite !(inside_form v Hq Hd Hin). reflexivity.
  - destruct (outside_form v Hq Hd ltac:(lia))
      as (i & k & Ei & Hi & Ek & Hk & Hc & E).
    pose proof (limit_norm2_le v Hq Hd) as N.
    destruct (scale_quot (q v) k Hq Hk) as [Sq Rq]. rewrite Sq in Rq.
    destruct (scale_quot (d v) k Hd Hk) as [Sd Rd]. rewrite Sd in Rd.
    apply inside_form; rewrite ?E; cbn [q d]; try assumption.
    rewrite <- E. exact N.
Qed.

Lemma X2_idempotent_witness :
  limit (limit {| q := 32767; d := -20000 |})
  = limit {| q := 32767; d := -20000 |}.
Proof.
  apply (X2_idempotent {| q := 32767; d := -20000 |});
    cbv [int16_range q d]; lia.
Defined.

(** The closed form of the limiter depends on the vector only through its
    squared magnitude and the component scaled. *)
Lemma limit_same_norm2 (v w : qd_t) :
  int16_range (q v) -> int16_range (d v) ->
  int16_range (q w) -> int16_range (d w) ->
  norm2 w = norm2 v ->
  (limit v = v /\ limit w = w) \/
  (exists k : Z,
      0 <= k <= 32768 /\
      limit v = {| q := Z.quot (q v * k) 32768; d := Z.quot (d v * k) 32768 |} /\
      limit w = {| q := Z.quot (q w * k) 32768; d := Z.quot (d w * k) 32768 |}).
Proof.
  intros Hq Hd Hq' Hd' En.
  destruct (Z_le_gt_dec (norm2 v) (MAX_MODULE * MAX_MODULE)) as [Hin | Hout].
  - left. split; apply inside_form; try assumption. rewrite En. exact Hin.
  - right.
    destruct (outside_form v Hq Hd ltac:(lia))
      as (i & k & Ei & Hi & Ek & Hk & Hc & E).
    destruct (outside_form w Hq' Hd' ltac:(lia))
      as (i' & k' & Ei' & Hi' & Ek' & Hk' & Hc' & E').
    rewrite En in Ei'. rewrite <- Ei in Ei'. subst i'. rewrite <- Ek in Ek'.
    subst k'. exists k. auto.
Qed.

(** X3. The limiter commutes with the symmetries of the circle: negating a
    component of the input negates that component of the output, and
    exchanging the two components of the input exchanges those of the
    output (components in -32767..32767, so that the negation is a 16-bit
    value). *)
Theorem X3_symmetry (v : qd_t) :
  -32767 <= q v <= 32767 -> -32767 <= d v <= 32767 ->
  limit {| q := - q v; d := d v |} = {| q := - q (limit v); d := d (limit v) |} /\
  limit {| q := q v; d := - d v |} = {| q := q (limit v); d := - d (limit v) |} /\
  limit {| q := d v; d := q v |} = {| q := d (limit v); d := q (limit v) |}.
Proof.
  intros Hq Hd.
  assert (Rq : int16_range (q v)) by (unfold int16_range; lia).
  assert (Rd : int16_range (d v)) by (unfold int16_range; lia).
  assert (Rq' : int16_range (- q v)) by (unfold int16_range; lia).
  assert (Rd' : int16_range (- d v)) by (unfold int16_range; lia).
  split; [|split].
  - destruct (limit_same_norm2 v {| q := - q v; d := d v |})
      as [[Ev Ew] | (k & Hk & Ev & Ew)]; cbn [q d]; try assumption.
    + unfold norm2. cbn [q d]. ring.
    + rewrite Ew, Ev. reflexivity.
    + cbn [q d] in Ew. rewrite Ew, Ev. cbn [q d].
      rewrite Z.mul_opp_l, Z.quot_opp_l by lia. reflexivity.
  - destruct (limit_same_norm2 v {| q := q v; d := - d v |})
      as [[Ev Ew] | (k & Hk & Ev & Ew)]; cbn [q d]; try assumption.
    + unfold norm2. cbn [q d]. ring.
    + rewrite Ew, Ev. reflexivity.
    + cbn [q d] in Ew. rewrite Ew, Ev. cbn [q d].
      rewrite Z.mul_opp_l, Z.quot_opp_l by lia. reflexivity.
  - destruct (limit_same_norm2 v {| q := d v; d := q v |})
      as [[Ev Ew] | (k & Hk & Ev & Ew)]; cbn [q d]; try assumption.
    + unfold norm2. cbn [q d]. ring.
    + rewrite Ew, Ev. reflexivity.
    + cbn [q d] in Ew. rewrite Ew, Ev. reflexivity.
Qed.

Lemma X3_symmetry_witness :
  let v := {| q := 30000; d := -12345 |} in
  limit {| q := - q v; d := d v |} = {| q := - q (limit v); d := d (limit v) |} /\
  limit {| q := q v; d := - d v |} = {| q := q (limit v); d := - d (limit v) |} /\
  limit {| q := d v; d := q v |} = {| q := d (limit v); d := q (limit v) |}.
Proof.
  apply (X3_symmetry {| q := 30000; d := -12345 |}); cbv [q d]; lia.
Defined.

(** X4. The limiter keeps the ratio [q / d] up to the two truncations: for
    every 16-bit vector outside the circle the cross product of output and
    input, [q' * d - d' * q], is smaller in absolute value than
    [|q| + |d|]. *)
Theorem X4_direction_kept (v : qd_t) :
  int16_range (q v) -> int16_range (d v) ->
  MAX_MODULE * MAX_MODULE < norm2 v ->
  Z.abs (q (limit v) * d v - d (limit v) * q v) < Z.abs (q v) + Z.abs (d v).
Proof.
  intros Hq Hd Hout.
  destruct (outside_form v Hq Hd Hout) as (i & k & Ei & Hi & Ek & Hk & Hc & E).
  rewrite E. cbn [q d].
  pose proof (Z.quot_rem' (q v * k) 32768) as Eq.
  pose proof (Z.quot_rem' (d v * k) 32768) as Ed.
  pose proof (Z.rem_bound_abs (q v * k) 32768 ltac:(lia)) as Bq.
  pose proof (Z.rem_bound_abs (d v * k) 32768 ltac:(lia)) as Bd.
  set (a := Z.quot (q v * k) 32768) in *. set (ra := Z.rem (q v * k) 32768) in *.
  set (b := Z.quot (d v * k) 32768) in *. set (rb := Z.rem (d v * k) 32768) in *.
  change (Z.abs 32768) with 32768 in Bq, Bd.
  assert (EX : 32768 * (a * d v - b * q v) = rb * q v - ra * d v).
  { transitivity ((q v * k - ra) * d v - (d v * k - rb) * q v); [|ring].
    rewrite Eq, Ed. ring. }
  assert (P : Z.abs (rb * q v) <= 32767 * Z.abs (q v)).
  { rewrite Z.abs_mul. apply Z.mul_le_mono_nonneg_r; lia. }
  assert (Q : Z.abs (ra * d v) <= 32767 * Z.abs (d v)).
  { rewrite Z.abs_mul. apply Z.mul_le_mono_nonneg_r; lia. }
  assert (Hnz : 0 < Z.abs (q v) + Z.abs (d v)).
  { unfold norm2, MAX_MODULE in Hout. nia. }
  lia.
Qed.

Lemma X4_direction_kept_witness :
  let v := {| q := 32767; d := 12345 |} in
  Z.abs (q (limit v) * d v - d (limit v) * q v) < Z.abs (q v) + Z.abs (d v).
Proof.
  apply (X4_direction_kept {| q := 32767; d := 12345 |});
    cbv [int16_range q d norm2 MAX_MODULE]; lia.
Defined.

Lemma entries_tight (i : nat) : (i <= 71)%nat -> entry_tight i = true.
Proof.
  intros Hi. apply (forallb_seq entry_tight 72); [vm_compute; reflexivity | lia].
Qed.

(** Truncation shortens a product by less than one unit of the result. *)
Lemma quot_square_ge (a : Z) :
  a * a - 65534 * Z.abs a <= 1073741824 * (Z.quot a 32768 * Z.quot a 32768).
Proof.
  set (t := Z.quot a 32768).
  replace (1073741824 * (t * t)) with ((32768 * t) * (32768 * t)) by ring.
  destruct (Z_le_gt_dec 0 a) as [Hp | Hn].
  - pose proof (quot_nonneg_bounds a Hp) as B. fold t in B.
    rewrite Z.abs_eq by lia.
    destruct (Z_le_gt_dec 32767 a) as [Hb | Hs].
    + assert (M : (a - 32767) * (a - 32767) <= (32768 * t) * (32768 * t))
        by (apply Z.mul_le_mono_nonneg; lia).
      lia.
    + assert (0 <= (32768 * t) * (32768 * t)) by nia. nia.
  - pose proof (quot_nonpos_bounds a ltac:(lia)) as B. fold t in B.
    rewrite Z.abs_neq by lia.
    destruct (Z_le_gt_dec a (-32767)) as [Hb | Hs].
    + assert (M : (- a - 32767) * (- a - 32767)
                  <= (- (32768 * t)) * (- (32768 * t)))
        by (apply Z.mul_le_mono_nonneg; lia).
      lia.
    + assert (0 <= (32768 * t) * (32768 * t)) by nia. nia.
Qed.

(** X5. The limiter does not shorten more than needed: every 16-bit vector
    outside the circle, [(-32768, -32768)] apart, comes back with a
    magnitude of at least 30400, that is within 1.3 percent of
    [MAX_MODULE] = 30800. *)
Theorem X5_not_over_attenuated (v : qd_t) :
  int16_range (q v) -> int16_range (d v) ->
  MAX_MODULE * MAX_MODULE < norm2 v < 2147483648 ->
  30400 * 30400 <= norm2 (limit v).
Proof.
  intros Hq Hd Hs.
  destruct (outside_form v Hq Hd ltac:(lia))
    as (i & k & Ei & Hi & Ek & Hk & Hc & E).
  pose proof (div_2_24_bounds (norm2 v)) as D.
  assert (Hi71 : 0 <= i <= 71) by lia.
  pose proof (entries_tight (Z.to_nat i) ltac:(lia)) as Ht.
  unfold entry_tight in Ht. rewrite <- Ek in Ht. rewrite Z2Nat.id in Ht by lia.
  apply Z.leb_le in Ht.
  rewrite E. unfold norm2 at 1. cbn [q d].
  pose proof (quot_square_ge (q v * k)) as Bq.
  pose proof (quot_square_ge (d v * k)) as Bd.
  rewrite Z.abs_mul, (Z.abs_eq k) in Bq, Bd by lia.
  assert (Aq : Z.abs (q v) * k <= 32768 * k)
    by (apply Z.mul_le_mono_nonneg_r; unfold int16_range in Hq; lia).
  assert (Ad : Z.abs (d v) * k <= 32768 * k)
    by (apply Z.mul_le_mono_nonneg_r; unfold int16_range in Hd; lia).
  assert (Hkk : 0 <= k * k) by nia.
  assert (Hlow : 16777216 * (56 + i) <= norm2 v) by lia.
  pose proof (Z.mul_le_mono_nonneg_r _ _ (k * k) Hkk Hlow) as M.
  unfold norm2 in M.
  replace (q v * k * (q v * k)) with (q v * q v * (k * k)) in Bq by ring.
  replace (d v * k * (d v * k)) with (d v * d v * (k * k)) in Bd by ring.
  replace (16777216 * (56 + i) * (k * k))
    with (16777216 * ((56 + i) * (k * k))) in M by ring.
  lia.
Qed.

Lemma X5_not_over_attenuated_witness :
  30400 * 30400 <= norm2 (limit {| q := -32768; d := 32767 |}).
Proof.
  apply (X5_not_over_attenuated {| q := -32768; d := 32767 |});
    cbv [int16_range q d norm2 MAX_MODULE]; lia.
Defined.

(** X6. For every 16-bit vector that takes the limiting branch, the
    subscript of the table read is below 87, the length of
    [Circle_limit_table], and the element read is a fraction of 2^15
    (between 0 and 32768). *)
Theorem X6_table_read_in_bounds (v : qd_t) :
  int16_range (q v) -> int16_range (d v) ->
  square_sum v > square_limit CircleLimitationM1 ->
  let i := Z.to_nat (table_index CircleLimitationM1 (square_sum v)) in
  length (Circle_limit_table CircleLimitationM1) = 87%nat /\
  (i < 87)%nat /\
  0 <= nth i (Circle_limit_table CircleLimitationM1) 0 <= 32768.
Proof.
  intros Hq Hd H i. subst i. rewrite square_sum_norm2 in * by assumption.
  rewrite square_limit_M1 in H. pose proof (norm2_le_2_31 v Hq Hd) as B.
  destruct (table_index_M1 (norm2 v)) as [-> Hi]; [lia|].
  split; [reflexivity|]. split; [lia|].
  pose proof (entries_ok (Z.to_nat (norm2 v / 16777216 - 56)) ltac:(lia)) as Hk.
  unfold entry_ok in Hk.
  apply andb_prop in Hk. destruct Hk as [Hk _].
  apply andb_prop in Hk. destruct Hk as [Hk0 Hk1].
  apply Z.leb_le in Hk0, Hk1. lia.
Qed.

Lemma X6_table_read_in_bounds_witness :
  let v := {| q := -32768; d := -32768 |} in
  let i := Z.to_nat (table_index CircleLimitationM1 (square_sum v)) in
  length (Circle_limit_table CircleLimitationM1) = 87%nat /\
  (i < 87)%nat /\
  0 <= nth i (Circle_limit_table CircleLimitationM1) 0 <= 32768.
Proof.
  apply (X6_table_read_in_bounds {| q := -32768; d := -32768 |});
    [cbv [int16_range q d]; lia | cbv [int16_range q d]; lia
    | vm_compute; reflexivity].
Defined.

End CircleLimitationExtra.

(** * Further properties of the reverse Park stage *)

Module RevParkExtra.
Import CInt CircleLimitation MCM_Rev_Park.
Local Open Scope R_scope.

(** X7. The rotation keeps the squared magnitude:
    [alpha^2 + beta^2 = q^2 + d^2] for every angle. *)
Theorem X7_rotation_keeps_norm (q d theta : R) :
  let y := Rev_Park q d theta in
  fst y * fst y + snd y * snd y = q * q + d * d.
Proof.
  unfold Rev_Park. cbn [fst snd].
  pose proof (sin2_cos2 theta) as H. unfold Rsqr in H.
  set (s := sin theta) in *. set (c := cos theta) in *.
  transitivity ((q * q + d * d) * (s * s + c * c)); [ring | rewrite H; ring].
Qed.

(** X8. Two rotations in a row are the rotation by the sum of the angles,
    and the rotation by the angle 0 returns its input. *)
Theorem X8_rotations_compose (q d a b : R) :
  Rev_Park (fst (Rev_Park q d a)) (snd (Rev_Park q d a)) b
  = Rev_Park q d (a + b) /\
  Rev_Park q d 0 = (q, d).
Proof.
  unfold Rev_Park. cbn [fst snd]. split.
  - rewrite cos_plus, sin_plus. f_equal; ring.
  - rewrite cos_0, sin_0. f_equal; ring.
Qed.

(** X9. Whatever the 16-bit vector and the angle, the two outputs of the
    block satisfy [y[0]^2 + y[1]^2 <= MAX_MODULE^2]: the stationary-frame
    vector never leaves the circle of radius 30800. *)
Theorem X9_block_output_in_circle (Vqd : qd_t) (theta : R) :
  int16_range (q Vqd) -> int16_range (d Vqd) ->
  let y := mdlOutputs Vqd theta in
  length y = 2%nat /\
  nth 0 y 0 * nth 0 y 0 + nth 1 y 0 * nth 1 y 0
  <= IZR (MAX_MODULE * MAX_MODULE).
Proof.
  intros Hq Hd y. subst y. unfold mdlOutputs. cbn [nth length].
  split; [reflexivity|].
  set (w := Circle_Limitation CircleLimitationM1 Vqd).
  pose proof (CircleLimitationExtra.limit_norm2_le Vqd Hq Hd) as N.
  fold w in N. unfold norm2 in N. apply IZR_le in N.
  rewrite plus_IZR, !mult_IZR in N.
  unfold Rev_Park. cbn [fst snd].
  pose proof (sin2_cos2 theta) as H. unfold Rsqr in H.
  set (s := sin theta) in *. set (c := cos theta) in *.
  replace ((IZR (q w) * c + IZR (d w) * s) * (IZR (q w) * c + IZR (d w) * s)
           + (- IZR (q w) * s + IZR (d w) * c)
             * (- IZR (q w) * s + IZR (d w) * c))
    with ((IZR (q w) * IZR (q w) + IZR (d w) * IZR (d w)) * (s * s + c * c))
    by ring.
  rewrite H, Rmult_1_r. rewrite mult_IZR. exact N.
Qed.

Lemma X9_block_output_in_circle_witness :
  let y := mdlOutputs {| q := 32767; d := 32767 |} (PI / 3) in
  length y = 2%nat /\
  nth 0 y 0 * nth 0 y 0 + nth 1 y 0 * nth 1 y 0
  <= IZR (MAX_MODULE * MAX_MODULE).
Proof.
  apply (X9_block_output_in_circle {| q := 32767; d := 32767 |} (PI / 3));
    cbv [int16_range q d]; lia.
Defined.

(** X10. For a 16-bit vector inside the circle, boundary included, the
    block is the plain rotation of its input. *)
Theorem X10_block_inside_is_rotation (Vqd : qd_t) (theta : R) :
  int16_range (q Vqd) -> int16_range (d Vqd) ->
  (norm2 Vqd <= MAX_MODULE * MAX_MODULE)%Z ->
  mdlOutputs Vqd theta
  = [IZR (q Vqd) * cos theta + IZR (d Vqd) * sin theta;
     - IZR (q Vqd) * sin theta + IZR (d Vqd) * cos theta].
Proof.
  intros Hq Hd Hin. unfold mdlOutputs.
  rewrite (CircleLimitationExtra.inside_form Vqd Hq Hd Hin). reflexivity.
Qed.

Lemma X10_block_inside_is_rotation_witness :
  mdlOutputs {| q := 30800; d := 0 |} 0
  = [30800 * cos 0 + 0 * sin 0; - 30800 * sin 0 + 0 * cos 0].
Proof.
  apply (X10_block_inside_is_rotation {| q := 30800; d := 0 |} 0);
    cbv [int16_range q d norm2 MAX_MODULE]; lia.
Defined.

End RevParkExtra.

(** * Further properties of the real-valued helpers *)

Module RealTExtra.
Import RealT RealTFacts.
Local Open Scope R_scope.

(** The length of [(x, y)] with [x <> 0], in terms of the slope [y / x]. *)
Lemma sqrt_slope (y x : R) :
  x <> 0 -> sqrt (y * y + x * x) = Rabs x * sqrt (1 + (y / x)²).
Proof.
  intros Hx. assert (Hp : 0 <= 1 + (y / x)²).
  { pose proof (Rle_0_sqr (y / x)). lra. }
  apply sqrt_lem_1.
  - nra.
  - apply Rmult_le_pos; [apply Rabs_pos | apply sqrt_pos].
  - replace (Rabs x * sqrt (1 + (y / x)²) * (Rabs x * sqrt (1 + (y / x)²)))
      with ((Rabs x * Rabs x) * (sqrt (1 + (y / x)²) * sqrt (1 + (y / x)²)))
      by ring.
    rewrite sqrt_sqrt by exact Hp.
    replace (Rabs x * Rabs x) with (x * x)
      by (unfold Rabs; destruct (Rcase_abs x); ring).
    unfold Rsqr. field. exact Hx.
Qed.

(** [atan2] and [sqrt] are the polar coordinates of the point [(x, y)]. *)
Lemma atan2_polar (y x : R) :
  sqrt (y * y + x * x) * cos (atan2 y x) = x /\
  sqrt (y * y + x * x) * sin (atan2 y x) = y.
Proof.
  unfold atan2.
  destruct (Rlt_dec 0 x) as [Hx | Hx].
  - assert (Hw : 0 < sqrt (1 + (y / x)²)).
    { apply sqrt_lt_R0. pose proof (Rle_0_sqr (y / x)). lra. }
    rewrite sqrt_slope by lra. rewrite Rabs_pos_eq by lra.
    rewrite cos_atan, sin_atan. split; field; lra.
  - destruct (Rlt_dec x 0) as [Hx' | Hx'].
    + assert (Hw : 0 < sqrt (1 + (y / x)²)).
      { apply sqrt_lt_R0. pose proof (Rle_0_sqr (y / x)). lra. }
      rewrite sqrt_slope by lra. rewrite Rabs_left by lra.
      destruct (Rle_dec 0 y) as [Hy | Hy].
      * rewrite neg_cos, neg_sin, cos_atan, sin_atan. split; field; lra.
      * rewrite cos_minus, sin_minus, cos_PI, sin_PI, cos_atan, sin_atan.
        split; field; lra.
    + assert (E : x = 0) by lra. subst x.
      replace (y * y + 0 * 0) with (y * y) by ring.
      destruct (Rlt_dec 0 y) as [Hy | Hy].
      * rewrite sqrt_square by lra. rewrite cos_PI2, sin_PI2. split; ring.
      * destruct (Rlt_dec y 0) as [Hy' | Hy'].
        -- replace (y * y) with ((- y) * (- y)) by ring.
           rewrite sqrt_square by lra.
           replace (- PI / 2) with (- (PI / 2)) by field.
           rewrite cos_neg, sin_neg, cos_PI2, sin_PI2. split; ring.
        -- assert (E : y = 0) by lra. subst y.
           rewrite Rmult_0_l, sqrt_0. split; ring.
Qed.



Lemma two_over_sqrt3_alt : 2 / sqrt 3 = 2 * sqrt 3 / 3.
Proof.
  pose proof (sqrt_lt_R0 3 ltac:(lra)) as Hw.
  pose proof (sqrt_sqrt 3 ltac:(lra)) as F.
  apply (Rmult_eq_reg_r (sqrt 3)); [|lra].
  replace (2 / sqrt 3 * sqrt 3) with 2 by (field; lra).
  replace (2 * sqrt 3 / 3 * sqrt 3) with (2 * (sqrt 3 * sqrt 3) / 3) by field.
  rewrite F. field.
Qed.

(** Sines and cosines of the multiples of 60 degrees. *)
Lemma thirds :
  (sin (0 * PI / 3) = 0 /\ cos (0 * PI / 3) = 1) /\
  (sin (1 * PI / 3) = sqrt 3 / 2 /\ cos (1 * PI / 3) = 1 / 2) /\
  (sin (2 * PI / 3) = sqrt 3 / 2 /\ cos (2 * PI / 3) = - (1 / 2)) /\
  (sin (3 * PI / 3) = 0 /\ cos (3 * PI / 3) = - 1) /\
  (sin (4 * PI / 3) = - (sqrt 3 / 2) /\ cos (4 * PI / 3) = - (1 / 2)) /\
  (sin (5 * PI / 3) = - (sqrt 3 / 2) /\ cos (5 * PI / 3) = 1 / 2) /\
  (sin (6 * PI / 3) = 0 /\ cos (6 * PI / 3) = 1).
Proof.
  repeat split.
  - replace (0 * PI / 3) with 0 by field. apply sin_0.
  - replace (0 * PI / 3) with 0 by field. apply cos_0.
  - replace (1 * PI / 3) with (PI / 3) by field. apply sin_PI3.
  - replace (1 * PI / 3) with (PI / 3) by field. apply cos_PI3.
  - replace (2 * PI / 3) with (2 * (PI / 3)) by field. apply sin_2PI3.
  - replace (2 * PI / 3) with (2 * (PI / 3)) by field. rewrite cos_2PI3. field.
  - replace (3 * PI / 3) with PI by field. apply sin_PI.
  - replace (3 * PI / 3) with PI by field. apply cos_PI.
  - replace (4 * PI / 3) with (PI / 3 + PI) by field.
    rewrite neg_sin, sin_PI3. reflexivity.
  - replace (4 * PI / 3) with (PI / 3 + PI) by field.
    rewrite neg_cos, cos_PI3. reflexivity.
  - replace (5 * PI / 3) with (2 * (PI / 3) + PI) by field.
    rewrite neg_sin, sin_2PI3. reflexivity.
  - replace (5 * PI / 3) with (2 * (PI / 3) + PI) by field.
    rewrite neg_cos, cos_2PI3. field.
  - replace (6 * PI / 3) with (2 * PI) by field. apply sin_2PI.
  - replace (6 * PI / 3) with (2 * PI) by field. apply cos_2PI.
Qed.

End RealTExtra.

(** * Further properties of the SVPWM encoder *)

Module SvpwmExtra.
Import RealT RealTFacts RealTExtra svpwm SvpwmFacts.
Local Open Scope R_scope.



(** The sector number is between 1 and 6 whatever the angle. *)
Lemma compute_sector_range (deg : R) : (1 <= compute_sector deg <= 6)%Z.
Proof.
  unfold compute_sector. destruct (sector_branch deg) as [n|] eqn:B; [|lia].
  apply (sector_cond_number n deg), sector_branch_some, B.
Qed.





(** X12. Whatever the angle, the final [else] included, the sector number
    is between 1 and 6; so is the sector reported in [y[4]], and the
    [default] case of the routing [switch] is never the one that runs. *)
Theorem X12_sector_in_range (S : SimStruct) :
  (forall deg : R, (1 <= compute_sector deg <= 6)%Z) /\
  (1 <= sector (mdlOutputs_locals S) <= 6)%Z /\
  nth 4 (mdlOutputs S) 0 = IZR (sector (mdlOutputs_locals S)).
Proof.
  split; [exact compute_sector_range|]. split; [|reflexivity].
  apply (compute_sector_range (deg (mdlOutputs_locals S))).
Qed.

(** X13. The final [else] of the sector chain is taken exactly for the
    angles [deg <= -180] and [deg > 180], and the sector is then 1. *)
Theorem X13_fallback_angles (deg : R) :
  (sector_branch deg = None <-> deg <= -180 \/ 180 < deg) /\
  (sector_branch deg = None -> compute_sector deg = 1%Z).
Proof.
  split.
  - split.
    + intros B. destruct (Rle_dec deg (-180)) as [H | H]; [left; exact H|].
      destruct (Rlt_dec 180 deg) as [H' | H']; [right; exact H'|].
      exfalso. destruct (compute_sector_cond deg ltac:(lra)) as [B' _].
      rewrite B in B'. discriminate.
    + intros H. apply sector_branch_none. intros n.
      destruct (sector_cond n deg) eqn:C; [|reflexivity].
      exfalso. apply sector_cond_interval in C.
      destruct C as [[_ ?] | [[_ ?] | [[_ ?] | [[_ ?] | [[_ ?] | [_ ?]]]]]];
        lra.
  - intros B. unfold compute_sector. rewrite B. reflexivity.
Qed.

Lemma X13_fallback_angles_witness :
  sector_branch (-180) = None /\ compute_sector (-180) = 1%Z.
Proof.
  destruct (X13_fallback_angles (-180)) as [[_ H] H1].
  assert (B : sector_branch (-180) = None) by (apply H; left; lra).
  split; [exact B | exact (H1 B)].
Defined.











(** The duty fractions in Cartesian coordinates. *)
Lemma cartesian_form (S : SimStruct) :
  let l := mdlOutputs_locals S in
  let n := IZR (sector l) in
  Mi l * cos (angle l) = Va l /\ Mi l * sin (angle l) = Vb l /\
  del1 l = 2 / sqrt 3 * (Va l * sin (n * PI / 3) - Vb l * cos (n * PI / 3)) /\
  del2 l = 2 / sqrt 3 * (Vb l * cos ((n - 1) * PI / 3)
                         - Va l * sin ((n - 1) * PI / 3)).
Proof.
  intros l n. destruct (atan2_polar (Vb l) (Va l)) as [Pc Ps].
  change (sqrt (Vb l * Vb l + Va l * Va l)) with (Mi l) in Pc, Ps.
  change (atan2 (Vb l) (Va l)) with (angle l) in Pc, Ps.
  split; [exact Pc|]. split; [exact Ps|]. split.
  - change (del1 l)
      with (2 / sqrt 3 * Mi l *
            (cos (angle l) * sin (n * PI / 3) - sin (angle l) * cos (n * PI / 3))).
    rewrite <- Pc, <- Ps. ring.
  - change (del2 l)
      with (2 / sqrt 3 * Mi l *
            (sin (angle l) * cos ((n - 1) * PI / 3)
             - cos (angle l) * sin ((n - 1) * PI / 3))).
    rewrite <- Pc, <- Ps. ring.
Qed.

(** X18. [Mi] and [angle] are the polar coordinates of the descaled input,
    [Mi * cos angle = Va] and [Mi * sin angle = Vb]; hence inside a sector
    the two dwell times [y[6]] and [y[7]] are linear in [(Va, Vb)]. *)
Theorem X18_cartesian_form (S : SimStruct) :
  let l := mdlOutputs_locals S in
  let y := mdlOutputs S in
  let n := IZR (sector l) in
  Mi l * cos (nth 3 y 0) = Va l /\ Mi l * sin (nth 3 y 0) = Vb l /\
  nth 6 y 0 = 2 / sqrt 3 * (Va l * sin (n * PI / 3) - Vb l * cos (n * PI / 3))
              * Ts_PARAM S /\
  nth 7 y 0 = 2 / sqrt 3 * (Vb l * cos ((n - 1) * PI / 3)
                            - Va l * sin ((n - 1) * PI / 3))
              * Ts_PARAM S.
Proof.
  intros l y n. destruct (cartesian_form S) as (Pc & Ps & E1 & E2).
  fold l n in Pc, Ps, E1, E2.
  split; [exact Pc|]. split; [exact Ps|]. split.
  - change (nth 6 y 0) with (del1 l * Ts_PARAM S). rewrite E1. reflexivity.
  - change (nth 7 y 0) with (del2 l * Ts_PARAM S). rewrite E2. reflexivity.
Qed.



(** X20. Volt-second balance.  In every sector the three thresholds
    reproduce the commanded vector: with the phase duties [sine1 / Ts],
    [sine2 / Ts], [sine3 / Ts], the Clarke components of the thresholds are
    [sine1 - (sine2 + sine3) / 2 = Ts * Va] and
    [sqrt 3 / 2 * (sine2 - sine3) = Ts * Vb], for every input. *)
Theorem X20_volt_second_balance (S : SimStruct) :
  let l := mdlOutputs_locals S in
  sine1 l - (sine2 l + sine3 l) / 2 = Ts_PARAM S * Va l /\
  sqrt 3 / 2 * (sine2 l - sine3 l) = Ts_PARAM S * Vb l.
Proof.
  intros l. destruct (cartesian_form S) as (_ & _ & D1 & D2).
  fold l in D1, D2. cbv zeta in D1, D2.
  rewrite two_over_sqrt3_alt in D1, D2.
  pose proof (sqrt_sqrt 3 ltac:(lra)) as F.
  set (w := sqrt 3) in *.
  assert (ET1 : T1 l = del1 l * Ts_PARAM S) by reflexivity.
  assert (ET2 : T2 l = del2 l * Ts_PARAM S) by reflexivity.
  assert (Ea : ta l = T1 l + T2 l + td l) by reflexivity.
  assert (Eb : tb l = T1 l + td l) by reflexivity.
  assert (Ec : tc l = T2 l + td l) by reflexivity.
  assert (E1 : sine1 l
               = fst (fst (gate_select (sector l) (ta l) (tb l) (tc l) (td l))))
    by reflexivity.
  assert (E2 : sine2 l
               = snd (fst (gate_select (sector l) (ta l) (tb l) (tc l) (td l))))
    by reflexivity.
  assert (E3 : sine3 l
               = snd (gate_select (sector l) (ta l) (tb l) (tc l) (td l)))
    by reflexivity.
  pose proof (f_equal (fun z => Va l * Ts_PARAM S * z) F) as Fa.
  pose proof (f_equal (fun z => Vb l * Ts_PARAM S * z) F) as Fb.
  pose proof (f_equal (fun z => Va l * Ts_PARAM S * w * z) F) as Fa'.
  pose proof (f_equal (fun z => Vb l * Ts_PARAM S * w * z) F) as Fb'.
  cbv beta in Fa, Fb, Fa', Fb'.
  destruct thirds as ((S0 & C0) & (S1 & C1) & (S2 & C2) & (S3 & C3)
                      & (S4 & C4) & (S5 & C5) & (S6 & C6)).
  fold w in S1, S2, S4, S5.
  pose proof (compute_sector_range (deg l)) as Hn.
  change (compute_sector (deg l)) with (sector l) in Hn.
  assert (C : (sector l = 1 \/ sector l = 2 \/ sector l = 3 \/
               sector l = 4 \/ sector l = 5 \/ sector l = 6)%Z) by lia.
  destruct C as [E | [E | [E | [E | [E | E]]]]];
    rewrite E in E1, E2, E3, D1, D2;
    cbn [gate_select fst snd] in E1, E2, E3.
  - replace ((1 - 1) * PI / 3) with (0 * PI / 3) in D2 by field.
    rewrite S1, C1 in D1. rewrite S0, C0 in D2.
    rewrite E1, E2, E3, Ea, Ec, ET1, ET2, D1, D2. split; lra.
  - replace ((2 - 1) * PI / 3) with (1 * PI / 3) in D2 by field.
    rewrite S2, C2 in D1. rewrite S1, C1 in D2.
    rewrite E1, E2, E3, Ea, Eb, ET1, ET2, D1, D2. split; lra.
  - replace ((3 - 1) * PI / 3) with (2 * PI / 3) in D2 by field.
    rewrite S3, C3 in D1. rewrite S2, C2 in D2.
    rewrite E1, E2, E3, Ea, Ec, ET1, ET2, D1, D2. split; lra.
  - replace ((4 - 1) * PI / 3) with (3 * PI / 3) in D2 by field.
    rewrite S4, C4 in D1. rewrite S3, C3 in D2.
    rewrite E1, E2, E3, Ea, Eb, ET1, ET2, D1, D2. split; lra.
  - replace ((5 - 1) * PI / 3) with (4 * PI / 3) in D2 by field.
    rewrite S5, C5 in D1. rewrite S4, C4 in D2.
    rewrite E1, E2, E3, Ea, Ec, ET1, ET2, D1, D2. split; lra.
  - replace ((6 - 1) * PI / 3) with (5 * PI / 3) in D2 by field.
    rewrite S6, C6 in D1. rewrite S5, C5 in D2.
    rewrite E1, E2, E3, Ea, Eb, ET1, ET2, D1, D2. split; lra.
Qed.

End SvpwmExtra.
